(** * scripts/save-backup-data.py: the backup placeholder initializer

    The script creates the directory [backup] next to [scripts/] and, for
    each of 22 hardcoded table names, creates [<table>.json] holding the
    text of an empty JSON array unless an entry of that name already
    exists.

    The script is embedded as a computation in a small monad that threads
    the state of the filesystem, may raise an [OSError], and records every
    call the script makes to the operating system and to [print].

    What the model takes from the environment: the script is alone on the
    directory while it runs; a call fails for a reason that lies in the
    state of the filesystem (a path that is not a directory, a directory
    that refuses new entries, a device without a free block); [print]
    always succeeds. *)

From Stdlib Require Import Lia.
From stdpp Require Import gmap strings list fin_maps.

Open Scope string_scope.
Open Scope list_scope.

(** ** The filesystem as the script sees it *)

(** An entry of the backup directory.  [Path.exists] is true for an entry
    of any kind, so the kinds other than a regular file are kept apart
    from it. *)
Inductive node : Type :=
  | RegularFile (data : string)
  | Subdirectory.

(** What sits at the path [backup_dir]. *)
Inductive target : Type :=
  | Missing
  | Directory (writable : bool) (entries : gmap string node)
  | NotADirectory.

(** The part of the machine the script depends on.
    - [location] is [str(backup_dir)], i.e. the parent of the parent of the
      script file joined with "backup".  That parent exists, because the
      script file lives below it.
    - [parent_writable]: may an entry be added to that parent.
    - [free_blocks]: data blocks left on the device.  A file that holds no
      byte owns no block; the first bytes written to it take one. *)
Record world : Type := World {
  location : string;
  parent_writable : bool;
  backup : target;
  free_blocks : nat
}.

Definition set_backup (t : target) (w : world) : world :=
  {| location := location w; parent_writable := parent_writable w;
     backup := t; free_blocks := free_blocks w |}.

Definition set_free_blocks (n : nat) (w : world) : world :=
  {| location := location w; parent_writable := parent_writable w;
     backup := backup w; free_blocks := n |}.

(** The entries of the backup directory; none when it is not a directory. *)
Definition entries (w : world) : gmap string node :=
  match backup w with
  | Directory _ d => d
  | _ => ∅
  end.

(** The subclasses of [OSError] the calls of the script can raise. *)
Inductive os_error : Type :=
  | PermissionError
  | FileExistsError
  | FileNotFoundError
  | NotADirectoryError
  | IsADirectoryError
  | NoSpaceError.

(** What the script asks of its environment, in the order it asks. *)
Inductive event : Type :=
  | EvMkdir
  | EvExists (name : string)
  | EvOpenW (name : string)
  | EvWrite (name : string) (data : string)
  | EvPrint (line : string).

Inductive result (A : Type) : Type :=
  | Ok (a : A)
  | Raise (e : os_error).
Arguments Ok {A} a.
Arguments Raise {A} e.

(** ** The monad: state, exception and log *)

Definition io (A : Type) : Type := world -> list event * result A * world.

Definition ret {A : Type} (a : A) : io A := fun w => ([], Ok a, w).

Definition bind {A B : Type} (m : io A) (k : A -> io B) : io B := fun w =>
  match m w with
  | (tr, Ok a, w1) =>
      match k a w1 with
      | (tr2, r, w2) => ((tr ++ tr2)%list, r, w2)
      end
  | (tr, Raise e, w1) => (tr, Raise e, w1)
  end.

Declare Scope io_scope.
Delimit Scope io_scope with io.
Notation "x <- m ;; k" := (bind m (fun x => k))
  (at level 100, m at next level, right associativity) : io_scope.
Notation "m ;; k" := (bind m (fun _ => k))
  (at level 100, right associativity) : io_scope.
Open Scope io_scope.

Definition trace_of {A : Type} (o : list event * result A * world) : list event :=
  fst (fst o).
Definition result_of {A : Type} (o : list event * result A * world) : result A :=
  snd (fst o).
Definition world_of {A : Type} (o : list event * result A * world) : world :=
  snd o.

(** A Python [for x in l: body]. *)
Fixpoint for_each {A : Type} (body : A -> io unit) (l : list A) : io unit :=
  match l with
  | [] => ret tt
  | x :: l' => body x ;; for_each body l'
  end.

(** ** The calls of the script *)

(** [backup_dir.mkdir(exist_ok=True)]: [parents] keeps its default [False].
    [exist_ok] silences the error only when the path is a directory.  A new
    directory is writable by its owner. *)
Definition mkdir : io unit := fun w =>
  match backup w with
  | Directory _ _ => ([EvMkdir], Ok tt, w)
  | NotADirectory => ([EvMkdir], Raise FileExistsError, w)
  | Missing =>
      if parent_writable w
      then ([EvMkdir], Ok tt, set_backup (Directory true ∅) w)
      else ([EvMkdir], Raise PermissionError, w)
  end.

(** [file_path.exists()]: true for an entry of any kind, false when there is
    none or when the path cannot be resolved. *)
Definition exists_ (name : string) : io bool := fun w =>
  ([EvExists name], Ok (bool_decide (is_Some (entries w !! name))), w).

(** [open(file_path, 'w', encoding='utf-8')]: creates the file when there is
    no entry (this needs write permission on the directory), truncates a
    regular file, fails on a directory. *)
Definition open_w (name : string) : io string := fun w =>
  match backup w with
  | Directory wr d =>
      match d !! name with
      | Some (RegularFile _) =>
          ([EvOpenW name], Ok name,
           set_backup (Directory wr (<[name := RegularFile ""]> d)) w)
      | Some Subdirectory => ([EvOpenW name], Raise IsADirectoryError, w)
      | None =>
          if wr
          then ([EvOpenW name], Ok name,
                set_backup (Directory wr (<[name := RegularFile ""]> d)) w)
          else ([EvOpenW name], Raise PermissionError, w)
      end
  | Missing => ([EvOpenW name], Raise FileNotFoundError, w)
  | NotADirectory => ([EvOpenW name], Raise NotADirectoryError, w)
  end.

(** The text written through the handle [f] reaching the file (the stream
    is buffered and flushed when the [with] block closes it; nothing
    happens in between).  Text of at least one byte takes a block; with none
    left the write fails and the file keeps what it had.  A handle always
    leads to a regular file in a run of the script; the other branches make
    the function total. *)
Definition write (f : string) (data : string) : io unit := fun w =>
  match backup w with
  | Directory wr d =>
      match d !! f with
      | Some (RegularFile old) =>
          if bool_decide (data = "") then ([EvWrite f data], Ok tt, w)
          else
            match free_blocks w with
            | O => ([EvWrite f data], Raise NoSpaceError, w)
            | S n =>
                ([EvWrite f data], Ok tt,
                 set_free_blocks n
                   (set_backup (Directory wr (<[f := RegularFile (old +:+ data)]> d)) w))
            end
      | _ => ([EvWrite f data], Raise FileNotFoundError, w)
      end
  | _ => ([EvWrite f data], Raise FileNotFoundError, w)
  end.

Definition print (line : string) : io unit := fun w => ([EvPrint line], Ok tt, w).

(** [json.dumps([], indent=2)]: the encoder yields the two brackets for a
    list without elements, whatever the indentation. *)
Definition json_dumps_empty_list : string := "[]".

(** [json.dump([], f, indent=2)] *)
Definition json_dump_empty_list (f : string) : io unit :=
  write f json_dumps_empty_list.

(** ** The script *)

Definition tables : list string :=
  [ "products";
    "inventory_movements";
    "product_stock_by_warehouse";
    "product_locations";
    "product_batches";
    "product_qr_assets";
    "product_label_assets";
    "profiles";
    "suppliers";
    "product_suppliers";
    "audit_logs";
    "user_settings";
    "user_login_events";
    "app_settings";
    "ai_suggestions";
    "ai_prediction_cache";
    "chat_rooms";
    "chat_messages";
    "batch_defect_reports";
    "product_modification_history";
    "scanner_users";
    "user_permissions" ].

(** [f"{table}.json"], the name of the entry below [backup_dir]. *)
Definition file_path (table : string) : string := table +:+ ".json".

(** The three messages of the script. *)
Definition banner (dir : string) : string :=
  "📁 Creando estructura de backup en: " +:+ dir.

Definition notice (table : string) : string :=
  "   ✓ " +:+ table +:+ ".json (placeholder)".

Definition summary : string :=
  "
✅ Estructura creada. Los datos se guardarán aquí cuando se exporten.".

(** [str(backup_dir)] *)
Definition backup_dir : io string := fun w => ([], Ok (location w), w).

(** The body of the loop. *)
Definition ensure_placeholder (table : string) : io unit :=
  present <- exists_ (file_path table) ;;
  if negb present then
    f <- open_w (file_path table) ;;
    json_dump_empty_list f ;;
    print (notice table)
  else ret tt.

(** The module-level code, over the list the loop walks. *)
Definition script_over (ts : list string) : io unit :=
  mkdir ;;
  dir <- backup_dir ;;
  print (banner dir) ;;
  for_each ensure_placeholder ts ;;
  print summary.

Definition script : io unit := script_over tables.

(** ** Vocabulary of the statements *)

Abbreviation created := (RegularFile json_dumps_empty_list) (only parsing).

(** The placeholders of a list of tables, as a directory of their own. *)
Definition placeholders_of (ts : list string) : gmap string node :=
  gset_to_gmap created (list_to_set (file_path <$> ts)).

(** Does [mkdir] go through. *)
Definition mkdir_ok (w : world) : bool :=
  match backup w with
  | Directory _ _ => true
  | Missing => parent_writable w
  | NotADirectory => false
  end.

(** The world a successful [mkdir] leaves. *)
Definition prepared (w : world) : world :=
  match backup w with
  | Missing => set_backup (Directory true ∅) w
  | _ => w
  end.

(** The tail of the trace after the loop: the summary is printed only when
    the loop did not raise. *)
Definition closing (r : result unit) : list event :=
  match r with
  | Ok _ => [EvPrint summary]
  | Raise _ => []
  end.

(** The entry a call names, if it names one. *)
Definition subject (ev : event) : option string :=
  match ev with
  | EvExists n | EvOpenW n | EvWrite n _ => Some n
  | EvMkdir | EvPrint _ => None
  end.

(** How often a trace opens the entry [n] for writing. *)
Definition opens_of (n : string) (tr : list event) : nat :=
  length (List.filter
            (fun ev => match ev with
                       | EvOpenW m => bool_decide (m = n)
                       | _ => false
                       end) tr).

(** Write access to the target location: the right to create the directory
    where it is missing, the right to add entries to it where it is there. *)
Definition write_access (w : world) : bool :=
  match backup w with
  | Missing => parent_writable w
  | Directory wr _ => wr
  | NotADirectory => false
  end.

(** The same filesystem, with the repository checked out elsewhere. *)
Definition set_location (l : string) (w : world) : world :=
  {| location := l; parent_writable := parent_writable w;
     backup := backup w; free_blocks := free_blocks w |}.

(** Two worlds with the same filesystem: they may differ in where the
    repository was checked out. *)
Definition same_filesystem (w1 w2 : world) : Prop :=
  parent_writable w1 = parent_writable w2 /\
  backup w1 = backup w2 /\
  free_blocks w1 = free_blocks w2.

(** The tables of a list that have no entry in the directory [d]. *)
Definition missing_in (d : gmap string node) (ts : list string) : list string :=
  filter (fun t => d !! file_path t = None) ts.

(** The listed tables without an entry in the backup directory. *)
Definition missing_tables (w : world) : list string :=
  missing_in (entries w) tables.

(** The calls one pass of the loop body makes when nothing fails, for a
    table that has an entry in [d] and for one that has none. *)
Definition visit (d : gmap string node) (t : string) : list event :=
  match d !! file_path t with
  | Some _ => [EvExists (file_path t)]
  | None =>
      [EvExists (file_path t); EvOpenW (file_path t);
       EvWrite (file_path t) "[]"; EvPrint (notice t)]
  end.

(** ** Worlds used as examples *)

(** A checkout where the script never ran: no backup directory yet. *)
Definition w_fresh : world :=
  {| location := "/repo/backup"; parent_writable := true;
     backup := Missing; free_blocks := 1000 |}.

(** The text of a JSON array of one row, [{"id":1}] between brackets. *)
Definition one_row : string :=
  let q := String (Ascii.ascii_of_nat 34) EmptyString in
  "[{" +:+ q +:+ "id" +:+ q +:+ ":1}]".

(** A directory that holds a placeholder of each table, each with a row. *)
Definition d_exported : gmap string node :=
  gset_to_gmap (RegularFile one_row) (list_to_set (file_path <$> tables)).

(** A writable directory where each table has its placeholder, beside a
    file of another name. *)
Definition w_exported : world :=
  {| location := "/repo/backup"; parent_writable := true;
     backup := Directory true (<["README.md" := RegularFile "notes"]> d_exported);
     free_blocks := 1000 |}.

(** The exported directory with the placeholder of one table removed. *)
Definition w_one_missing : world :=
  {| location := "/repo/backup"; parent_writable := true;
     backup := Directory true (delete (file_path "chat_rooms") d_exported);
     free_blocks := 1000 |}.

(** A directory the process may not add entries to, holding nothing, and
    one holding a placeholder of each table. *)
Definition w_read_only_empty : world :=
  {| location := "/repo/backup"; parent_writable := true;
     backup := Directory false ∅; free_blocks := 1000 |}.

Definition w_read_only_exported : world :=
  {| location := "/repo/backup"; parent_writable := true;
     backup := Directory false d_exported; free_blocks := 1000 |}.

(** A writable, empty directory on a device without a free block, and on
    one with a single free block. *)
Definition w_full_disk : world :=
  {| location := "/repo/backup"; parent_writable := true;
     backup := Directory true ∅; free_blocks := 0 |}.

Definition w_one_block : world :=
  {| location := "/repo/backup"; parent_writable := true;
     backup := Directory true ∅; free_blocks := 1 |}.

(** ** One pass of the loop body *)

Section EnsurePlaceholder.

Variables (table : string) (w : world) (wr : bool) (d : gmap string node).
Hypothesis Hdir : backup w = Directory wr d.

Let name := file_path table.

Lemma ensure_present (e : node) :
  d !! name = Some e ->
  ensure_placeholder table w = ([EvExists name], Ok tt, w).
Proof.
  intros He. unfold ensure_placeholder, bind, exists_, entries.
  fold name. rewrite Hdir, He. rewrite bool_decide_eq_true_2 by eauto.
  reflexivity.
Qed.

Lemma ensure_denied :
  d !! name = None -> wr = false ->
  ensure_placeholder table w =
    ([EvExists name; EvOpenW name], Raise PermissionError, w).
Proof.
  intros He ->. unfold ensure_placeholder, bind, exists_, entries, open_w.
  fold name. rewrite Hdir, He.
  rewrite bool_decide_eq_false_2 by (intros [? ?]; discriminate).
  simpl. rewrite Hdir, He. reflexivity.
Qed.

Lemma ensure_no_space :
  d !! name = None -> wr = true -> free_blocks w = 0 ->
  ensure_placeholder table w =
    ([EvExists name; EvOpenW name; EvWrite name "[]"], Raise NoSpaceError,
     set_backup (Directory true (<[name := RegularFile ""]> d)) w).
Proof.
  intros He -> Hfree.
  unfold ensure_placeholder, bind, exists_, entries, open_w,
    json_dump_empty_list, write, json_dumps_empty_list.
  fold name. rewrite Hdir, He.
  rewrite bool_decide_eq_false_2 by (intros [? ?]; discriminate).
  simpl. rewrite Hdir, He. simpl. rewrite lookup_insert_eq. simpl.
  rewrite Hfree. reflexivity.
Qed.

Lemma ensure_created (n : nat) :
  d !! name = None -> wr = true -> free_blocks w = S n ->
  ensure_placeholder table w =
    ([EvExists name; EvOpenW name; EvWrite name "[]";
      EvPrint (notice table)], Ok tt,
     set_free_blocks n (set_backup (Directory true (<[name := created]> d)) w)).
Proof.
  intros He -> Hfree.
  unfold ensure_placeholder, bind, exists_, entries, open_w,
    json_dump_empty_list, write, json_dumps_empty_list, print.
  fold name. rewrite Hdir, He.
  rewrite bool_decide_eq_false_2 by (intros [? ?]; discriminate).
  simpl. rewrite Hdir, He. simpl. rewrite lookup_insert_eq. simpl.
  rewrite Hfree. rewrite insert_insert_eq. reflexivity.
Qed.

End EnsurePlaceholder.

(** ** Sequencing *)

Lemma bind_ok {A B : Type} (m : io A) (k : A -> io B) w tr a w1 :
  m w = (tr, Ok a, w1) ->
  bind m k w = ((tr ++ trace_of (k a w1))%list, result_of (k a w1), world_of (k a w1)).
Proof.
  intros Hm. unfold bind. rewrite Hm.
  destruct (k a w1) as [[tr2 r] w2]. reflexivity.
Qed.

Lemma bind_raise {A B : Type} (m : io A) (k : A -> io B) w tr e w1 :
  m w = (tr, Raise e, w1) -> bind m k w = (tr, Raise e, w1).
Proof. intros Hm. unfold bind. rewrite Hm. reflexivity. Qed.

Lemma outcome_eta {A : Type} (o : list event * result A * world) :
  o = (trace_of o, result_of o, world_of o).
Proof. destruct o as [[tr r] w]. reflexivity. Qed.

Section Projections.

Context {A : Type} (tr : list event) (r : result A) (w : world).

Lemma trace_of_outcome : trace_of (tr, r, w) = tr.
Proof. reflexivity. Qed.

Lemma result_of_outcome : result_of (tr, r, w) = r.
Proof. reflexivity. Qed.

Lemma world_of_outcome : world_of (tr, r, w) = w.
Proof. reflexivity. Qed.

End Projections.

Ltac outcome := rewrite ?trace_of_outcome, ?result_of_outcome, ?world_of_outcome.

Abbreviation loop ts := (for_each ensure_placeholder ts).

Lemma loop_cons_ok t ts w tr w1 :
  ensure_placeholder t w = (tr, Ok tt, w1) ->
  loop (t :: ts) w =
    ((tr ++ trace_of (loop ts w1))%list, result_of (loop ts w1), world_of (loop ts w1)).
Proof.
  intros H. simpl.
  exact (bind_ok (ensure_placeholder t) (fun _ => loop ts) _ _ _ _ H).
Qed.

Lemma loop_cons_raise t ts w tr e w1 :
  ensure_placeholder t w = (tr, Raise e, w1) ->
  loop (t :: ts) w = (tr, Raise e, w1).
Proof.
  intros H. simpl.
  exact (bind_raise (ensure_placeholder t) (fun _ => loop ts) _ _ _ _ H).
Qed.

(** The four ways one pass of the body can go, as rewriting of the loop. *)
Ltac loop_step t ts w wr d Hdir :=
  let He := fresh "He" in
  let Hfree := fresh "Hfree" in
  let e := fresh "e" in
  let k := fresh "k" in
  destruct (d !! file_path t) as [e|] eqn:He;
  [ rewrite (loop_cons_ok t ts w _ _ (ensure_present t w wr d Hdir e He))
  | destruct wr;
    [ destruct (free_blocks w) as [|k] eqn:Hfree;
      [ rewrite (loop_cons_raise t ts w _ _ _
                   (ensure_no_space t w true d Hdir He eq_refl Hfree))
      | rewrite (loop_cons_ok t ts w _ _
                   (ensure_created t w true d Hdir k He eq_refl Hfree)) ]
    | rewrite (loop_cons_raise t ts w _ _ _
                 (ensure_denied t w false d Hdir He eq_refl)) ] ].

(** ** What the loop never touches *)

Lemma loop_frame ts : forall w wr d,
  backup w = Directory wr d ->
  exists d',
    backup (world_of (loop ts w)) = Directory wr d' /\
    location (world_of (loop ts w)) = location w /\
    parent_writable (world_of (loop ts w)) = parent_writable w /\
    (forall n e, d !! n = Some e -> d' !! n = Some e) /\
    (forall n, n ∉ file_path <$> ts -> d' !! n = d !! n).
Proof.
  induction ts as [|t ts IH]; intros w wr d Hdir.
  - exists d. simpl. auto.
  - loop_step t ts w wr d Hdir; outcome.
    + destruct (IH w wr d Hdir) as (d' & ? & ? & ? & Hkeep & Hout).
      exists d'. repeat split; auto.
      intros n Hn. apply Hout. rewrite fmap_cons, not_elem_of_cons in Hn. tauto.
    + exists (<[file_path t := RegularFile ""]> d). repeat split.
      * intros n e Hn. rewrite lookup_insert_ne; [done | congruence].
      * intros n Hn. rewrite fmap_cons, not_elem_of_cons in Hn.
        rewrite lookup_insert_ne; [done | intros E; symmetry in E; tauto].
    + edestruct (IH (set_free_blocks k
                 (set_backup (Directory true (<[file_path t := created]> d)) w)))
        as (d' & ? & ? & ? & Hkeep & Hout); [reflexivity |].
      exists d'. repeat split; auto.
      * intros n e Hn. apply Hkeep. rewrite lookup_insert_ne; [done | congruence].
      * intros n Hn. rewrite fmap_cons, not_elem_of_cons in Hn.
        rewrite Hout by tauto.
        rewrite lookup_insert_ne; [done | intros E; symmetry in E; tauto].
    + exists d. auto.
Qed.

(** ** A run of the loop that completes *)

Lemma placeholders_of_nil : placeholders_of [] = ∅.
Proof. apply gset_to_gmap_empty. Qed.

Lemma placeholders_of_cons t ts :
  placeholders_of (t :: ts) = <[file_path t := created]> (placeholders_of ts).
Proof. apply gset_to_gmap_union_singleton. Qed.

Lemma lookup_placeholders_of ts n :
  placeholders_of ts !! n =
    if decide (n ∈ file_path <$> ts) then Some created else None.
Proof.
  unfold placeholders_of. rewrite lookup_gset_to_gmap.
  destruct (decide (n ∈ file_path <$> ts)) as [Hin|Hin].
  - rewrite option_guard_True; [done | by apply elem_of_list_to_set].
  - rewrite option_guard_False; [done | by rewrite elem_of_list_to_set].
Qed.

Lemma placeholders_of_perm ts ts' :
  ts ≡ₚ ts' -> placeholders_of ts = placeholders_of ts'.
Proof. intros Hp. unfold placeholders_of. by rewrite Hp. Qed.

Section Union.

Variables (d m : gmap string node) (n : string) (v : node).

Lemma union_insert_present e : d !! n = Some e -> d ∪ <[n := v]> m = d ∪ m.
Proof.
  intros He. apply map_eq. intros i. rewrite !lookup_union.
  destruct (decide (n = i)) as [<-|Hne].
  - rewrite He. by destruct (<[n:=v]> m !! n), (m !! n).
  - by rewrite lookup_insert_ne.
Qed.

Lemma union_insert_absent : d !! n = None -> d ∪ <[n := v]> m = <[n := v]> d ∪ m.
Proof. intros He. by rewrite <- insert_union_r, insert_union_l. Qed.

Lemma size_union_insert_absent :
  d !! n = None -> S (size d) <= size (<[n := v]> d ∪ m).
Proof.
  intros He. rewrite <- (map_size_insert_None n v d He).
  apply map_subseteq_size, map_union_subseteq_l.
Qed.

End Union.

Lemma loop_ok ts : forall w wr d,
  backup w = Directory wr d ->
  result_of (loop ts w) = Ok tt ->
  backup (world_of (loop ts w)) = Directory wr (d ∪ placeholders_of ts) /\
  free_blocks (world_of (loop ts w)) + size (d ∪ placeholders_of ts) =
    free_blocks w + size d.
Proof.
  induction ts as [|t ts IH]; intros w wr d Hdir.
  - intros _. rewrite placeholders_of_nil, (right_id_L ∅ (∪)). simpl. auto.
  - rewrite placeholders_of_cons.
    loop_step t ts w wr d Hdir; outcome; try discriminate.
    + rewrite (union_insert_present _ _ _ _ _ He). apply IH, Hdir.
    + rewrite (union_insert_absent _ _ _ _ He). intros Hok.
      edestruct (IH (set_free_blocks k
                 (set_backup (Directory true (<[file_path t := created]> d)) w)))
        as [Hb Hf]; [reflexivity | exact Hok |].
      split; [exact Hb |]. rewrite Hf. simpl.
      rewrite (map_size_insert_None _ _ _ He). lia.
Qed.

(** When the loop completes: nothing is missing, or the directory is writable
    and the device has a block for each missing placeholder. *)
Lemma loop_succeeds ts : forall w wr d,
  backup w = Directory wr d ->
  result_of (loop ts w) = Ok tt <->
  size (d ∪ placeholders_of ts) = size d \/
  (wr = true /\ size (d ∪ placeholders_of ts) <= size d + free_blocks w).
Proof.
  induction ts as [|t ts IH]; intros w wr d Hdir.
  - rewrite placeholders_of_nil, (right_id_L ∅ (∪)). simpl. tauto.
  - rewrite placeholders_of_cons.
    loop_step t ts w wr d Hdir; outcome.
    + rewrite (union_insert_present _ _ _ _ _ He). apply IH, Hdir.
    + rewrite (union_insert_absent _ _ _ _ He).
      pose proof (size_union_insert_absent d (placeholders_of ts)
                    (file_path t) created He).
      split; [discriminate | lia].
    + rewrite (union_insert_absent _ _ _ _ He).
      pose proof (size_union_insert_absent d (placeholders_of ts)
                    (file_path t) created He) as Hsz.
      rewrite (IH (set_free_blocks k
                 (set_backup (Directory true (<[file_path t := created]> d)) w))
                 true (<[file_path t := created]> d) eq_refl).
      rewrite (map_size_insert_None _ _ _ He). simpl. lia.
    + rewrite (union_insert_absent _ _ _ _ He).
      pose proof (size_union_insert_absent d (placeholders_of ts)
                    (file_path t) created He).
      split; [discriminate |]. intros [?|[? _]]; [lia | discriminate].
Qed.

(** ** The script around the loop *)

Lemma mkdir_accepted w : mkdir_ok w = true -> mkdir w = ([EvMkdir], Ok tt, prepared w).
Proof.
  unfold mkdir_ok, mkdir, prepared. destruct (backup w); try done.
  by intros ->.
Qed.

Lemma mkdir_refused w :
  mkdir_ok w = false ->
  exists e, mkdir w = ([EvMkdir], Raise e, w).
Proof.
  unfold mkdir_ok, mkdir. destruct (backup w); try done; eauto.
  intros ->. eauto.
Qed.

Lemma prepared_directory w :
  mkdir_ok w = true ->
  exists wr, backup (prepared w) = Directory wr (entries w).
Proof.
  unfold mkdir_ok, prepared, entries. destruct (backup w) eqn:Hb; try done.
  - intros _. exists true. reflexivity.
  - intros _. exists writable. exact Hb.
Qed.

Lemma prepared_id w wr d : backup w = Directory wr d -> prepared w = w.
Proof. unfold prepared. by intros ->. Qed.

Lemma script_over_accepted ts w :
  mkdir_ok w = true ->
  script_over ts w =
    (EvMkdir :: EvPrint (banner (location w)) ::
       (trace_of (loop ts (prepared w)) ++ closing (result_of (loop ts (prepared w))))%list,
     result_of (loop ts (prepared w)),
     world_of (loop ts (prepared w))).
Proof.
  intros Hok.
  assert (Hloc : location (prepared w) = location w).
  { unfold prepared. by destruct (backup w). }
  unfold script_over, bind, backup_dir, print.
  rewrite (mkdir_accepted w Hok), Hloc.
  destruct (loop ts (prepared w)) as [[tr [[]|e]] w']; outcome;
    unfold closing; rewrite ?app_nil_r; reflexivity.
Qed.

Lemma script_over_refused ts w :
  mkdir_ok w = false ->
  exists e, script_over ts w = ([EvMkdir], Raise e, w).
Proof.
  intros Hno. destruct (mkdir_refused w Hno) as [e He]. exists e.
  unfold script_over. apply (bind_raise mkdir _ _ _ _ _ He).
Qed.

(** ** Runs of the loop that find every placeholder, or may create none *)

Lemma loop_all_present ts : forall w wr d,
  backup w = Directory wr d ->
  (forall t, t ∈ ts -> is_Some (d !! file_path t)) ->
  loop ts w = (EvExists <$> (file_path <$> ts), Ok tt, w).
Proof.
  induction ts as [|t ts IH]; intros w wr d Hdir Hall; [reflexivity |].
  destruct (Hall t) as [e He]; [apply list_elem_of_here |].
  rewrite (loop_cons_ok t ts w _ _ (ensure_present t w wr d Hdir e He)).
  rewrite (IH w wr d Hdir); [reflexivity |].
  intros t' Ht'. apply Hall. by apply list_elem_of_further.
Qed.

Lemma loop_denied ts : forall w d,
  backup w = Directory false d ->
  world_of (loop ts w) = w /\
  (result_of (loop ts w) = Ok tt \/ result_of (loop ts w) = Raise PermissionError) /\
  (result_of (loop ts w) = Ok tt <-> forall t, t ∈ ts -> is_Some (d !! file_path t)).
Proof.
  induction ts as [|t ts IH]; intros w d Hdir.
  - simpl. split; [done |]. split; [by left |].
    split; [| done]. intros _ t Ht. by apply not_elem_of_nil in Ht.
  - destruct (d !! file_path t) as [e|] eqn:He.
    + rewrite (loop_cons_ok t ts w _ _ (ensure_present t w false d Hdir e He)).
      outcome. destruct (IH w d Hdir) as (Hw & Hr & Hiff).
      split; [exact Hw |]. split; [exact Hr |]. rewrite Hiff. split.
      * intros Hall t' Ht'. apply elem_of_cons in Ht' as [->|Ht']; eauto.
      * intros Hall t' Ht'. apply Hall. by apply list_elem_of_further.
    + rewrite (loop_cons_raise t ts w _ _ _ (ensure_denied t w false d Hdir He eq_refl)).
      outcome. split; [done |]. split; [by right |]. split; [discriminate |].
      intros Hall. destruct (Hall t) as [e He']; [apply list_elem_of_here |].
      congruence.
Qed.

(** ** What the calls of a run are about *)

(** Every call of the loop that names an entry is the existence test,
    unless the entry was absent when the loop started. *)
Lemma loop_calls ts : forall w wr d ev n,
  backup w = Directory wr d ->
  ev ∈ trace_of (loop ts w) ->
  subject ev = Some n ->
  ev = EvExists n \/ d !! n = None.
Proof.
  induction ts as [|t ts IH]; intros w wr d ev n Hdir.
  - simpl. intros Hin. by apply not_elem_of_nil in Hin.
  - loop_step t ts w wr d Hdir; outcome; intros Hin Hsub.
    + apply elem_of_app in Hin as [Hin|Hin]; [| by eapply IH].
      apply list_elem_of_singleton in Hin as ->. left.
      simpl in Hsub. congruence.
    + right. repeat (apply elem_of_cons in Hin as [->|Hin]);
        simpl in Hsub; try congruence.
      by apply not_elem_of_nil in Hin.
    + apply elem_of_app in Hin as [Hin|Hin].
      * right. repeat (apply elem_of_cons in Hin as [->|Hin]);
          simpl in Hsub; try congruence.
        by apply not_elem_of_nil in Hin.
      * edestruct (IH (set_free_blocks k
                   (set_backup (Directory true (<[file_path t := created]> d)) w)))
          as [Hev|Hnone]; [reflexivity | exact Hin | exact Hsub | by left |].
        right. apply lookup_insert_None in Hnone. tauto.
    + right. repeat (apply elem_of_cons in Hin as [->|Hin]);
        simpl in Hsub; try congruence.
      by apply not_elem_of_nil in Hin.
Qed.

(** ** A run of the loop that raises *)

(** The loop raises at one table [t]: the tables before it went through,
    the placeholder of [t] was missing, and either the directory refused
    the new entry, or the entry was made and the device had no block for
    its text. *)
Lemma loop_raise ts : forall w wr d e,
  backup w = Directory wr d ->
  result_of (loop ts w) = Raise e ->
  exists pre t post w1,
    ts = pre ++ t :: post /\
    result_of (loop pre w) = Ok tt /\
    world_of (loop pre w) = w1 /\
    (d ∪ placeholders_of pre) !! file_path t = None /\
    ((e = PermissionError /\ wr = false /\
      world_of (loop ts w) = w1 /\
      last (trace_of (loop ts w)) = Some (EvOpenW (file_path t))) \/
     (e = NoSpaceError /\ wr = true /\
      world_of (loop ts w) =
        set_backup (Directory wr (<[file_path t := RegularFile ""]>
                                    (d ∪ placeholders_of pre))) w1 /\
      last (trace_of (loop ts w)) = Some (EvWrite (file_path t) "[]"))).
Proof.
  induction ts as [|t ts IH]; intros w wr d e Hdir; [discriminate |].
  loop_step t ts w wr d Hdir; outcome; intros Hr.
  - destruct (IH w wr d e Hdir Hr)
      as (pre & t' & post & w1 & -> & Hpre & Hw1 & Hnone & Hcase).
    exists (t :: pre), t', post, w1.
    rewrite (loop_cons_ok t pre w _ _ (ensure_present t w wr d Hdir e0 He)).
    outcome.
    rewrite placeholders_of_cons, (union_insert_present _ _ _ _ _ He).
    repeat split; try done.
    destruct Hcase as [(? & ? & ? & Hl)|(? & ? & ? & Hl)]; [left | right];
      repeat split; try done.
    all: by rewrite last_app, Hl.
  - injection Hr as <-. exists [], t, ts, w.
    rewrite placeholders_of_nil, (right_id_L ∅ (∪)).
    repeat split; try done. right. done.
  - edestruct (IH (set_free_blocks k
               (set_backup (Directory true (<[file_path t := created]> d)) w)))
      as (pre & t' & post & w1 & -> & Hpre & Hw1 & Hnone & Hcase);
      [reflexivity | exact Hr |].
    exists (t :: pre), t', post, w1.
    rewrite (loop_cons_ok t pre w _ _
               (ensure_created t w true d Hdir k He eq_refl Hfree)).
    outcome.
    rewrite placeholders_of_cons, (union_insert_absent _ _ _ _ He).
    repeat split; try done.
    destruct Hcase as [(? & ? & ? & Hl)|(? & ? & ? & Hl)]; [left | right];
      repeat split; try done.
    all: by rewrite last_app, Hl.
  - injection Hr as <-. exists [], t, ts, w.
    rewrite placeholders_of_nil, (right_id_L ∅ (∪)).
    repeat split; try done. left. done.
Qed.

(** ** The table list *)

Lemma string_length_app (s1 s2 : string) :
  String.length (s1 +:+ s2) = String.length s1 + String.length s2.
Proof. induction s1 as [|a s1 IH]; simpl; [done | by rewrite IH]. Qed.

Lemma file_path_inj t1 t2 : file_path t1 = file_path t2 -> t1 = t2.
Proof.
  unfold file_path. revert t2.
  induction t1 as [|a t1 IH]; intros [|b t2]; intros H.
  - reflexivity.
  - apply (f_equal String.length) in H. simpl in H.
    rewrite string_length_app in H. simpl in H. lia.
  - apply (f_equal String.length) in H. simpl in H.
    rewrite string_length_app in H. simpl in H. lia.
  - simpl in H. injection H as -> Ht. f_equal. by apply IH.
Qed.

Lemma tables_length : length tables = 22.
Proof. reflexivity. Qed.

Lemma tables_NoDup : NoDup tables.
Proof. apply (bool_decide_unpack _). vm_compute. exact I. Qed.

Lemma file_paths_NoDup : NoDup (file_path <$> tables).
Proof.
  apply NoDup_fmap_2; [| exact tables_NoDup].
  intros t1 t2. apply file_path_inj.
Qed.

Lemma size_placeholders_of ts :
  NoDup ts -> size (placeholders_of ts) = length ts.
Proof.
  intros Hnd. unfold placeholders_of.
  rewrite <- size_dom, dom_gset_to_gmap, size_list_to_set, length_fmap; [done |].
  apply NoDup_fmap_2; [| exact Hnd]. intros t1 t2. apply file_path_inj.
Qed.

(** ** Write access *)

Lemma write_access_mkdir_ok w : write_access w = true -> mkdir_ok w = true.
Proof. unfold write_access, mkdir_ok. by destruct (backup w). Qed.

Lemma prepared_write_access w :
  write_access w = true ->
  backup (prepared w) = Directory true (entries w) /\
  free_blocks (prepared w) = free_blocks w.
Proof.
  unfold write_access, prepared, entries. destruct (backup w) eqn:Hb; try done.
  intros ->. by rewrite Hb.
Qed.

Lemma script_over_ok_inv ts w tr w' :
  script_over ts w = (tr, Ok tt, w') ->
  mkdir_ok w = true /\
  result_of (loop ts (prepared w)) = Ok tt /\
  world_of (loop ts (prepared w)) = w'.
Proof.
  intros Hrun. destruct (mkdir_ok w) eqn:Hok.
  - rewrite (script_over_accepted ts w Hok) in Hrun.
    injection Hrun as _ Hr Hw. done.
  - destruct (script_over_refused ts w Hok) as [e He]. congruence.
Qed.

Lemma entries_of_directory w n e :
  entries w !! n = Some e -> exists wr, backup w = Directory wr (entries w).
Proof.
  unfold entries. destruct (backup w) as [|wr d|]; try by rewrite lookup_empty.
  eauto.
Qed.

Lemma script_over_directory ts w wr d :
  backup w = Directory wr d ->
  script_over ts w =
    (EvMkdir :: EvPrint (banner (location w)) ::
       (trace_of (loop ts w) ++ closing (result_of (loop ts w))),
     result_of (loop ts w), world_of (loop ts w)).
Proof.
  intros Hdir. rewrite script_over_accepted.
  - by rewrite (prepared_id w wr d Hdir).
  - unfold mkdir_ok. by rewrite Hdir.
Qed.

Lemma last_cons_Some {A : Type} (x y : A) (l : list A) :
  last l = Some y -> last (x :: l) = Some y.
Proof. intros H. rewrite last_cons. by rewrite H. Qed.

(** ** The order of the tables *)

Lemma world_ext (w1 w2 : world) :
  location w1 = location w2 ->
  parent_writable w1 = parent_writable w2 ->
  backup w1 = backup w2 ->
  free_blocks w1 = free_blocks w2 ->
  w1 = w2.
Proof. destruct w1, w2. simpl. by intros -> -> -> ->. Qed.

(** Two lists with the same placeholders: when the loop completes over one,
    it completes over the other, in the same world. *)
Lemma loop_same_placeholders ts ts' w wr d :
  backup w = Directory wr d ->
  placeholders_of ts = placeholders_of ts' ->
  result_of (loop ts w) = Ok tt ->
  result_of (loop ts' w) = Ok tt /\ world_of (loop ts' w) = world_of (loop ts w).
Proof.
  intros Hdir Hsame Hr.
  assert (Hr' : result_of (loop ts' w) = Ok tt).
  { apply (loop_succeeds ts' w wr d Hdir). rewrite <- Hsame.
    by apply (loop_succeeds ts w wr d Hdir). }
  split; [exact Hr' |].
  destruct (loop_frame ts w wr d Hdir) as (d1 & _ & Hl1 & Hp1 & _).
  destruct (loop_frame ts' w wr d Hdir) as (d2 & _ & Hl2 & Hp2 & _).
  destruct (loop_ok ts w wr d Hdir Hr) as [Hb1 Hf1].
  destruct (loop_ok ts' w wr d Hdir Hr') as [Hb2 Hf2].
  rewrite <- Hsame in Hb2, Hf2.
  apply world_ext; try congruence. lia.
Qed.

(** ** One file for each table *)

Lemma one_entry_per_name {A : Type} (l : list (string * A)) (k : string) :
  NoDup (l.*1) -> length (filter (fun p => p.1 = k) l) <= 1.
Proof.
  induction l as [|[k' a] l IH]; intros Hnd; [simpl; lia |].
  apply NoDup_cons in Hnd as [Hk' Hnd]. rewrite filter_cons.
  destruct (decide ((k', a).1 = k)) as [Heq|Hne]; [| by apply IH].
  simpl in Heq. subst k'. simpl.
  assert (Hnil : filter (fun p : string * A => p.1 = k) l = []).
  { destruct (filter (fun p : string * A => p.1 = k) l) as [|[k' b] rest] eqn:E;
      [done |].
    assert (Hin : (k', b) ∈ filter (fun p : string * A => p.1 = k) l)
      by (rewrite E; apply list_elem_of_here).
    apply list_elem_of_filter in Hin as [Hk Hin]. simpl in Hk. subst k'.
    destruct Hk'. apply list_elem_of_fmap. by exists (k, b). }
  rewrite Hnil. simpl. lia.
Qed.

Lemma opens_of_app n tr1 tr2 : opens_of n (tr1 ++ tr2) = opens_of n tr1 + opens_of n tr2.
Proof. unfold opens_of. by rewrite List.filter_app, length_app. Qed.

(** The loop opens a name at most once, and never a name that has an
    entry when the loop starts. *)
Lemma loop_opens_once ts : forall w wr d n,
  backup w = Directory wr d ->
  opens_of n (trace_of (loop ts w)) <= match d !! n with Some _ => 0 | None => 1 end.
Proof.
  induction ts as [|t ts IH]; intros w wr d n Hdir.
  - simpl. unfold opens_of. simpl. destruct (d !! n); lia.
  - loop_step t ts w wr d Hdir; outcome; rewrite ?opens_of_app.
    + specialize (IH w wr d n Hdir). unfold opens_of at 1. simpl. lia.
    + unfold opens_of. simpl. case_bool_decide as Hn; simpl; [| lia].
      subst n. rewrite He. lia.
    + specialize (IH _ _ _ n (eq_refl :
        backup (set_free_blocks k
                 (set_backup (Directory true (<[file_path t := created]> d)) w))
        = Directory true (<[file_path t := created]> d))).
      unfold opens_of at 1. simpl. case_bool_decide as Hn; simpl.
      * subst n. rewrite lookup_insert_eq in IH. rewrite He. lia.
      * rewrite lookup_insert_ne in IH by done. lia.
    + unfold opens_of. simpl. case_bool_decide as Hn; simpl; [| lia].
      subst n. rewrite He. lia.
Qed.

Lemma script_over_opens_once ts w n : opens_of n (trace_of (script_over ts w)) <= 1.
Proof.
  destruct (mkdir_ok w) eqn:Hmk.
  - rewrite (script_over_accepted _ _ Hmk). outcome.
    destruct (prepared_directory w Hmk) as [wr Hdir].
    pose proof (loop_opens_once ts _ _ _ n Hdir) as Hopen.
    change (EvMkdir :: EvPrint (banner (location w)) ::
              trace_of (loop ts (prepared w)) ++
              closing (result_of (loop ts (prepared w))))
      with ([EvMkdir; EvPrint (banner (location w))] ++
              trace_of (loop ts (prepared w)) ++
              closing (result_of (loop ts (prepared w)))).
    rewrite !opens_of_app.
    assert (Hclose : opens_of n (closing (result_of (loop ts (prepared w)))) = 0)
      by (by destruct (result_of (loop ts (prepared w)))).
    rewrite Hclose.
    change (opens_of n [EvMkdir; EvPrint (banner (location w))]) with 0.
    destruct (entries w !! n); lia.
  - destruct (script_over_refused ts w Hmk) as [e He]. rewrite He.
    outcome. change (opens_of n [EvMkdir]) with 0. lia.
Qed.

(** ** The state a run ends in depends on the filesystem only *)

Lemma same_filesystem_set_location w1 w2 :
  same_filesystem w1 w2 -> w2 = set_location (location w2) w1.
Proof. intros (? & ? & ?). by apply world_ext. Qed.

Lemma loop_location ts : forall w wr d l,
  backup w = Directory wr d ->
  loop ts (set_location l w) =
    (trace_of (loop ts w), result_of (loop ts w), set_location l (world_of (loop ts w))).
Proof.
  induction ts as [|t ts IH]; intros w wr d l Hdir; [reflexivity |].
  assert (Hdir' : backup (set_location l w) = Directory wr d) by exact Hdir.
  loop_step t ts w wr d Hdir; outcome.
  - rewrite (loop_cons_ok t ts _ _ _
               (ensure_present t (set_location l w) wr d Hdir' e He)).
    rewrite (IH w wr d l Hdir). by outcome.
  - by rewrite (loop_cons_raise t ts _ _ _ _
                  (ensure_no_space t (set_location l w) true d Hdir' He eq_refl Hfree)).
  - rewrite (loop_cons_ok t ts _ _ _
               (ensure_created t (set_location l w) true d Hdir' k He eq_refl Hfree)).
    change (set_free_blocks k
              (set_backup (Directory true (<[file_path t := created]> d))
                 (set_location l w)))
      with (set_location l
              (set_free_blocks k
                 (set_backup (Directory true (<[file_path t := created]> d)) w))).
    rewrite (IH (set_free_blocks k
                   (set_backup (Directory true (<[file_path t := created]> d)) w))
               true (<[file_path t := created]> d) l eq_refl).
    by outcome.
  - by rewrite (loop_cons_raise t ts _ _ _ _
                  (ensure_denied t (set_location l w) false d Hdir' He eq_refl)).
Qed.

Lemma script_over_location ts w l :
  result_of (script_over ts (set_location l w)) = result_of (script_over ts w) /\
  world_of (script_over ts (set_location l w)) =
    set_location l (world_of (script_over ts w)).
Proof.
  destruct (mkdir_ok w) eqn:Hmk.
  - assert (Hmk' : mkdir_ok (set_location l w) = true) by exact Hmk.
    rewrite (script_over_accepted ts w Hmk).
    rewrite (script_over_accepted ts _ Hmk'). outcome.
    destruct (prepared_directory w Hmk) as [wr Hdir].
    assert (Hprep : prepared (set_location l w) = set_location l (prepared w)).
    { unfold prepared. simpl. by destruct (backup w). }
    rewrite Hprep, (loop_location ts _ _ _ l Hdir). by outcome.
  - destruct (mkdir_refused w Hmk) as [e He].
    assert (He' : mkdir (set_location l w) = ([EvMkdir], Raise e, set_location l w)).
    { revert He. unfold mkdir. simpl. destruct (backup w); try done.
      - destruct (parent_writable w); [done |]. by intros [= ->].
      - by intros [= ->]. }
    unfold script_over.
    rewrite (bind_raise mkdir _ _ _ _ _ He), (bind_raise mkdir _ _ _ _ _ He').
    by outcome.
Qed.

(** ** Runs over a list without repeated file names *)

Lemma missing_in_insert d ts n v :
  n ∉ file_path <$> ts -> missing_in (<[n := v]> d) ts = missing_in d ts.
Proof.
  unfold missing_in. induction ts as [|t ts IH]; intros Hn; [reflexivity |].
  rewrite fmap_cons, not_elem_of_cons in Hn. destruct Hn as [Hne Hn].
  rewrite !filter_cons, (IH Hn), lookup_insert_ne by done. reflexivity.
Qed.

Lemma visit_insert d t n v : n <> file_path t -> visit (<[n := v]> d) t = visit d t.
Proof. intros Hne. unfold visit. by rewrite lookup_insert_ne. Qed.

(** The loop completes when no table is missing, or when the directory is
    writable and the device has a block for each missing table. *)
Lemma loop_succeeds_missing ts :
  NoDup (file_path <$> ts) ->
  forall w wr d,
    backup w = Directory wr d ->
    result_of (loop ts w) = Ok tt <->
    missing_in d ts = [] \/ (wr = true /\ length (missing_in d ts) <= free_blocks w).
Proof.
  induction ts as [|t ts IH]; intros Hnd w wr d Hdir.
  - simpl. split; [by left | done].
  - rewrite fmap_cons in Hnd. apply NoDup_cons in Hnd as [Hfresh Hnd].
    unfold missing_in. rewrite filter_cons. fold (missing_in d ts).
    loop_step t ts w wr d Hdir; outcome.
    + rewrite decide_False by done. by apply IH.
    + rewrite decide_True by done. simpl. split; [discriminate |].
      intros [?|[_ ?]]; [discriminate | lia].
    + rewrite decide_True by done.
      rewrite (IH Hnd (set_free_blocks k
                 (set_backup (Directory true (<[file_path t := created]> d)) w))
                 true (<[file_path t := created]> d) eq_refl).
      rewrite (missing_in_insert _ _ _ _ Hfresh). simpl. split.
      * intros [Hnil|[_ Hle]]; right; (split; [done |]); [rewrite Hnil; simpl |]; lia.
      * intros [?|[_ Hle]]; [discriminate |]. right. split; [done | lia].
    + rewrite decide_True by done. split; [discriminate |].
      intros [?|[? _]]; discriminate.
Qed.

(** The calls of a loop that completes: those of [visit], table after
    table, the entries being those the loop found when it started. *)
Lemma loop_trace_ok ts :
  NoDup (file_path <$> ts) ->
  forall w wr d,
    backup w = Directory wr d ->
    result_of (loop ts w) = Ok tt ->
    trace_of (loop ts w) = concat (visit d <$> ts).
Proof.
  induction ts as [|t ts IH]; intros Hnd w wr d Hdir; [reflexivity |].
  rewrite fmap_cons in Hnd. apply NoDup_cons in Hnd as [Hfresh Hnd].
  rewrite fmap_cons. simpl concat. unfold visit at 1.
  loop_step t ts w wr d Hdir; outcome; try discriminate.
  - intros Hr. by rewrite (IH Hnd w wr d Hdir Hr).
  - intros Hr.
    rewrite (IH Hnd (set_free_blocks k
               (set_backup (Directory true (<[file_path t := created]> d)) w))
               true (<[file_path t := created]> d) eq_refl Hr).
    do 2 f_equal. apply list_fmap_ext. intros i t' Ht'.
    apply visit_insert. intros Heq. apply Hfresh. rewrite Heq.
    apply list_elem_of_fmap_2. by eapply list_elem_of_lookup_2.
Qed.

(** ** What the loop prints and what it creates *)

(** Every message of the loop is the notice of a table. *)
Lemma loop_prints ts : forall w wr d line,
  backup w = Directory wr d ->
  EvPrint line ∈ trace_of (loop ts w) ->
  exists t, t ∈ ts /\ line = notice t.
Proof.
  induction ts as [|t ts IH]; intros w wr d line Hdir.
  - simpl. intros Hin. by apply not_elem_of_nil in Hin.
  - loop_step t ts w wr d Hdir; outcome; intros Hin.
    + apply elem_of_app in Hin as [Hin|Hin].
      * apply list_elem_of_singleton in Hin. discriminate.
      * destruct (IH w wr d line Hdir Hin) as (t' & Ht' & ->).
        exists t'. split; [by apply list_elem_of_further | done].
    + repeat (apply elem_of_cons in Hin as [Hin|Hin]; [discriminate |]).
      by apply not_elem_of_nil in Hin.
    + apply elem_of_app in Hin as [Hin|Hin].
      * repeat (apply elem_of_cons in Hin as [Hin|Hin]; [try discriminate |]).
        -- injection Hin as ->. exists t. split; [apply list_elem_of_here | done].
        -- by apply not_elem_of_nil in Hin.
      * destruct (IH (set_free_blocks k
                   (set_backup (Directory true (<[file_path t := created]> d)) w))
                  true (<[file_path t := created]> d) line eq_refl Hin)
          as (t' & Ht' & ->).
        exists t'. split; [by apply list_elem_of_further | done].
    + repeat (apply elem_of_cons in Hin as [Hin|Hin]; [discriminate |]).
      by apply not_elem_of_nil in Hin.
Qed.

Lemma notice_not_summary t : notice t <> summary.
Proof. unfold notice, summary. simpl. discriminate. Qed.

Lemma banner_not_summary dir : banner dir <> summary.
Proof. unfold banner, summary. simpl. discriminate. Qed.

(** An entry the loop leaves was there before, or is new under the name of
    a table of the list: with the text of the empty array, or with no text
    when the loop raised for lack of space. *)
Lemma loop_new_entries ts : forall w wr d n e,
  backup w = Directory wr d ->
  entries (world_of (loop ts w)) !! n = Some e ->
  d !! n = Some e \/
  (d !! n = None /\ n ∈ file_path <$> ts /\
   (e = created \/
    (e = RegularFile "" /\ result_of (loop ts w) = Raise NoSpaceError))).
Proof.
  induction ts as [|t ts IH]; intros w wr d n e Hdir.
  - simpl. unfold entries. rewrite Hdir. by left.
  - rewrite fmap_cons.
    loop_step t ts w wr d Hdir; outcome; intros Hn.
    + destruct (IH w wr d n e Hdir Hn) as [?|(? & ? & ?)]; [by left |].
      right. split; [done |]. split; [by apply list_elem_of_further | done].
    + unfold entries in Hn. simpl in Hn.
      apply lookup_insert_Some in Hn as [[<- <-]|[Hne Hn]]; [| by left].
      right. split; [done |]. split; [apply list_elem_of_here |]. by right.
    + destruct (IH (set_free_blocks k
                 (set_backup (Directory true (<[file_path t := created]> d)) w))
                true (<[file_path t := created]> d) n e eq_refl Hn)
        as [Hold|(Hnone & Hin & Hnew)].
      * apply lookup_insert_Some in Hold as [[<- <-]|[Hne Hold]]; [| by left].
        right. split; [done |]. split; [apply list_elem_of_here |]. by left.
      * apply lookup_insert_None in Hnone as [Hnone Hne].
        right. split; [done |]. split; [by apply list_elem_of_further | done].
    + unfold entries in Hn. rewrite Hdir in Hn. by left.
Qed.

(** ** Notices and the files they announce *)

Lemma string_app_inj_r (x s1 s2 : string) : s1 +:+ x = s2 +:+ x -> s1 = s2.
Proof.
  revert s2. induction s1 as [|a s1 IH]; intros [|b s2] H.
  - reflexivity.
  - apply (f_equal String.length) in H.
    rewrite !string_length_app in H. simpl in H. lia.
  - apply (f_equal String.length) in H.
    rewrite !string_length_app in H. simpl in H. lia.
  - simpl in H. injection H as -> Ht. f_equal. by apply IH.
Qed.

Lemma notice_not_banner t dir : notice t <> banner dir.
Proof. unfold notice, banner. simpl. discriminate. Qed.

Lemma notice_inj t1 t2 : notice t1 = notice t2 -> t1 = t2.
Proof.
  unfold notice. intros H. apply String.app_inj in H.
  by apply string_app_inj_r in H.
Qed.

(** Over a list without repeated file names, the loop prints the notice of
    a table exactly when the table had no entry and has one with the text
    of the empty array when the loop ends. *)
Lemma loop_notice_iff ts :
  NoDup (file_path <$> ts) ->
  forall w wr d t,
    backup w = Directory wr d ->
    EvPrint (notice t) ∈ trace_of (loop ts w) <->
    t ∈ ts /\ d !! file_path t = None /\
    entries (world_of (loop ts w)) !! file_path t = Some created.
Proof.
  induction ts as [|t0 ts IH]; intros Hnd w wr d t Hdir.
  - simpl. split; [intros Hin | intros [Hin _]]; by apply not_elem_of_nil in Hin.
  - rewrite fmap_cons in Hnd. apply NoDup_cons in Hnd as [Hfresh Hnd].
    loop_step t0 ts w wr d Hdir; outcome.
    + rewrite elem_of_app, (IH Hnd w wr d t Hdir). split.
      * intros [Hin|(? & ? & ?)].
        { apply list_elem_of_singleton in Hin. discriminate. }
        split; [by apply list_elem_of_further | done].
      * intros (Hin & Hnone & Hnew). right.
        apply elem_of_cons in Hin as [->|Hin]; [congruence | done].
    + split.
      * intros Hin.
        repeat (apply elem_of_cons in Hin as [Hin|Hin]; [discriminate |]).
        by apply not_elem_of_nil in Hin.
      * intros (_ & Hnone & Hnew). unfold entries in Hnew. simpl in Hnew.
        apply lookup_insert_Some in Hnew as [[_ ?]|[_ ?]];
          [discriminate | congruence].
    + rewrite elem_of_app.
      rewrite (IH Hnd (set_free_blocks k
                 (set_backup (Directory true (<[file_path t0 := created]> d)) w))
                 true (<[file_path t0 := created]> d) t eq_refl).
      split.
      * intros [Hin|(Hin & Hnone & Hnew)].
        { repeat (apply elem_of_cons in Hin as [Hin|Hin]; [try discriminate |]).
          - assert (Heq : notice t = notice t0) by congruence.
            apply notice_inj in Heq as ->.
            split; [apply list_elem_of_here |]. split; [done |].
            destruct (loop_frame ts (set_free_blocks k
                        (set_backup (Directory true (<[file_path t0 := created]> d)) w))
                        true (<[file_path t0 := created]> d) eq_refl)
              as (d' & Hb & _ & _ & Hkeep & _).
            unfold entries. rewrite Hb. apply Hkeep, lookup_insert_eq.
          - by apply not_elem_of_nil in Hin. }
        apply lookup_insert_None in Hnone as [Hnone _].
        split; [by apply list_elem_of_further | done].
      * intros (Hin & Hnone & Hnew).
        apply elem_of_cons in Hin as [->|Hin].
        { left. do 3 apply list_elem_of_further. apply list_elem_of_here. }
        right. split; [done |]. split; [| done].
        apply lookup_insert_None. split; [done |].
        intros Heq. apply Hfresh. rewrite Heq. by apply list_elem_of_fmap_2.
    + split.
      * intros Hin.
        repeat (apply elem_of_cons in Hin as [Hin|Hin]; [discriminate |]).
        by apply not_elem_of_nil in Hin.
      * intros (_ & Hnone & Hnew). unfold entries in Hnew. rewrite Hdir in Hnew.
        congruence.
Qed.

(** ** The script as a whole *)

Lemma prepared_access w :
  mkdir_ok w = true ->
  backup (prepared w) = Directory (write_access w) (entries w) /\
  free_blocks (prepared w) = free_blocks w.
Proof.
  unfold mkdir_ok, prepared, write_access, entries.
  destruct (backup w) eqn:Hb; try done. intros ->. done.
Qed.

Lemma mkdir_never_lacks_space w tr e w1 :
  mkdir w = (tr, Raise e, w1) -> e <> NoSpaceError.
Proof.
  unfold mkdir. destruct (backup w); [destruct (parent_writable w) | |];
    intros [= _ <- _]; discriminate.
Qed.

Lemma script_over_keeps_entries ts w n e :
  entries w !! n = Some e -> entries (world_of (script_over ts w)) !! n = Some e.
Proof.
  intros He. destruct (entries_of_directory w _ _ He) as [wr Hdir].
  rewrite (script_over_directory _ _ _ _ Hdir). outcome.
  destruct (loop_frame ts w _ _ Hdir) as (d' & Hb & _ & _ & Hkeep & _).
  unfold entries at 1. rewrite Hb. by apply Hkeep.
Qed.

(** * The claims *)

(** C1.  A run started on an absent or empty backup directory that
    completes leaves a directory of exactly 22 entries: an entry exists
    exactly under the names [<table>.json] of the 22 tables, and each is a
    regular file holding the text of the empty array.  With write access
    and 22 free blocks the run does complete. *)
Theorem fresh_directory_populated (w : world) :
  backup w = Missing \/ (exists wr, backup w = Directory wr ∅) ->
  (forall tr w', script w = (tr, Ok tt, w') ->
     exists wr d',
       backup w' = Directory wr d' /\
       size d' = 22 /\
       (forall n, is_Some (d' !! n) <-> exists t, t ∈ tables /\ n = file_path t) /\
       (forall t, t ∈ tables -> d' !! file_path t = Some (RegularFile "[]"))) /\
  (write_access w = true -> 22 <= free_blocks w -> result_of (script w) = Ok tt).
Proof.
  intros Hfresh.
  assert (Hempty : entries w = ∅).
  { unfold entries. by destruct Hfresh as [->|[wr ->]]. }
  split.
  - intros tr w' Hrun.
    apply script_over_ok_inv in Hrun as (Hmk & Hr & <-).
    destruct (prepared_directory w Hmk) as [wr Hdir]. rewrite Hempty in Hdir.
    destruct (loop_ok tables _ _ _ Hdir Hr) as [Hb _].
    rewrite (left_id_L ∅ (∪)) in Hb.
    exists wr, (placeholders_of tables). split; [exact Hb |].
    split; [by rewrite (size_placeholders_of _ tables_NoDup) |]. split.
    + intros n. rewrite lookup_placeholders_of.
      destruct (decide (n ∈ file_path <$> tables)) as [Hin|Hin].
      * split; [| by eauto]. intros _.
        apply list_elem_of_fmap in Hin as (t & -> & Ht). eauto.
      * split; [by intros [? ?] |]. intros (t & Ht & ->).
        destruct Hin. by apply list_elem_of_fmap_2.
    + intros t Ht. rewrite lookup_placeholders_of.
      rewrite decide_True; [done | by apply list_elem_of_fmap_2].
  - intros Hwa Hfree. unfold script.
    rewrite (script_over_accepted _ _ (write_access_mkdir_ok w Hwa)). outcome.
    destruct (prepared_write_access w Hwa) as [Hdir Hfb].
    apply (loop_succeeds tables _ _ _ Hdir). right. split; [done |].
    rewrite Hempty, (left_id_L ∅ (∪)), (size_placeholders_of _ tables_NoDup).
    rewrite Hfb, tables_length. lia.
Qed.

Lemma fresh_directory_populated_witness :
  (backup w_fresh = Missing \/ (exists wr, backup w_fresh = Directory wr ∅)) /\
  result_of (script w_fresh) = Ok tt /\
  exists wr d',
    backup (world_of (script w_fresh)) = Directory wr d' /\
    size d' = 22 /\
    (forall n, is_Some (d' !! n) <-> exists t, t ∈ tables /\ n = file_path t) /\
    (forall t, t ∈ tables -> d' !! file_path t = Some (RegularFile "[]")).
Proof.
  assert (Hfresh : backup w_fresh = Missing \/
                   (exists wr, backup w_fresh = Directory wr ∅))
    by (left; reflexivity).
  destruct (fresh_directory_populated w_fresh Hfresh) as [Hdone Hruns].
  assert (Hr : result_of (script w_fresh) = Ok tt).
  { apply Hruns; [reflexivity | simpl; lia]. }
  split; [exact Hfresh |]. split; [exact Hr |].
  apply (Hdone (trace_of (script w_fresh))).
  rewrite <- Hr. apply outcome_eta.
Defined.

(** C2.  When a run has completed, a second run started on the state it
    left completes as well and leaves that state as it is.  Its calls are
    [mkdir], the existence test of each placeholder, and the two messages:
    it opens no file and writes none. *)
Theorem second_run_changes_nothing (w : world) (tr : list event) (w' : world) :
  script w = (tr, Ok tt, w') ->
  script w' =
    (EvMkdir :: EvPrint (banner (location w')) ::
       (EvExists <$> (file_path <$> tables)) ++ [EvPrint summary],
     Ok tt, w').
Proof.
  intros Hrun. apply script_over_ok_inv in Hrun as (Hmk & Hr & Hw).
  destruct (prepared_directory w Hmk) as [wr Hdir].
  destruct (loop_ok tables _ _ _ Hdir Hr) as [Hb _]. rewrite Hw in Hb.
  unfold script. rewrite (script_over_directory _ _ _ _ Hb).
  rewrite (loop_all_present tables w' _ _ Hb); [reflexivity |].
  intros t Ht. rewrite lookup_union, lookup_placeholders_of.
  rewrite decide_True by (by apply list_elem_of_fmap_2).
  destruct (entries w !! file_path t); eauto.
Qed.

Lemma second_run_changes_nothing_witness :
  script w_fresh =
    (trace_of (script w_fresh), Ok tt, world_of (script w_fresh)) /\
  script (world_of (script w_fresh)) =
    (EvMkdir :: EvPrint (banner (location (world_of (script w_fresh)))) ::
       (EvExists <$> (file_path <$> tables)) ++ [EvPrint summary],
     Ok tt, world_of (script w_fresh)).
Proof.
  assert (Hrun : script w_fresh =
            (trace_of (script w_fresh), Ok tt, world_of (script w_fresh))).
  { assert (Hr : result_of (script w_fresh) = Ok tt) by (vm_compute; reflexivity).
    rewrite <- Hr. apply outcome_eta. }
  split; [exact Hrun |].
  exact (second_run_changes_nothing w_fresh _ _ Hrun).
Defined.

(** C3.  An entry that exists under the name of a placeholder before a
    run, whatever it holds, is the same entry after the run, however the
    run ends; and the only call of the run that names it is the existence
    test: the script does not open it and does not write to it. *)
Theorem existing_placeholder_untouched (w : world) (t : string) (e : node) :
  entries w !! file_path t = Some e ->
  entries (world_of (script w)) !! file_path t = Some e /\
  (forall ev, ev ∈ trace_of (script w) ->
     subject ev = Some (file_path t) -> ev = EvExists (file_path t)).
Proof.
  intros He. destruct (entries_of_directory w _ _ He) as [wr Hdir].
  unfold script. rewrite (script_over_directory _ _ _ _ Hdir). outcome.
  destruct (loop_frame tables w _ _ Hdir) as (d' & Hb & _ & _ & Hkeep & _).
  split.
  - unfold entries at 1. rewrite Hb. by apply Hkeep.
  - intros ev Hin Hsub.
    apply elem_of_cons in Hin as [->|Hin]; [discriminate |].
    apply elem_of_cons in Hin as [->|Hin]; [discriminate |].
    apply elem_of_app in Hin as [Hin|Hin].
    + destruct (loop_calls tables w _ _ ev _ Hdir Hin Hsub); [done | congruence].
    + destruct (result_of (loop tables w)); simpl in Hin.
      * apply list_elem_of_singleton in Hin as ->. discriminate.
      * by apply not_elem_of_nil in Hin.
Qed.

Lemma existing_placeholder_untouched_witness :
  entries w_exported !! file_path "products" = Some (RegularFile one_row) /\
  entries (world_of (script w_exported)) !! file_path "products" =
    Some (RegularFile one_row) /\
  (forall ev, ev ∈ trace_of (script w_exported) ->
     subject ev = Some (file_path "products") ->
     ev = EvExists (file_path "products")).
Proof.
  assert (He : entries w_exported !! file_path "products" =
               Some (RegularFile one_row)) by (vm_compute; reflexivity).
  split; [exact He |].
  exact (existing_placeholder_untouched w_exported "products" _ He).
Defined.

(** C4.  In a directory where the placeholder of exactly one table [t0] is
    missing and those of the 21 others exist, a run that completes leaves
    the directory as it was with the one entry [t0.json] added, holding the
    text of the empty array.  With a writable directory and one free block
    the run does complete. *)
Theorem one_missing_placeholder (w : world) (wr : bool) (d : gmap string node)
    (t0 : string) :
  backup w = Directory wr d ->
  t0 ∈ tables ->
  d !! file_path t0 = None ->
  (forall t, t ∈ tables -> t <> t0 -> is_Some (d !! file_path t)) ->
  (forall tr w', script w = (tr, Ok tt, w') ->
     backup w' = Directory wr (<[file_path t0 := RegularFile "[]"]> d)) /\
  (wr = true -> 1 <= free_blocks w -> result_of (script w) = Ok tt).
Proof.
  intros Hdir Ht0 Hnone Hothers.
  assert (Hfill : d ∪ placeholders_of tables = <[file_path t0 := created]> d).
  { apply map_eq. intros n. rewrite lookup_union, lookup_placeholders_of.
    destruct (decide (n = file_path t0)) as [->|Hne].
    - rewrite lookup_insert_eq, Hnone.
      rewrite decide_True by (by apply list_elem_of_fmap_2). done.
    - rewrite lookup_insert_ne by done.
      destruct (decide (n ∈ file_path <$> tables)) as [Hin|Hin].
      + apply list_elem_of_fmap in Hin as (t & -> & Ht).
        destruct (Hothers t Ht) as [e He]; [congruence |]. by rewrite He.
      + by destruct (d !! n). }
  split.
  - intros tr w' Hrun. apply script_over_ok_inv in Hrun as (_ & Hr & <-).
    rewrite (prepared_id w wr d Hdir) in *.
    destruct (loop_ok tables _ _ _ Hdir Hr) as [Hb _]. by rewrite Hfill in Hb.
  - intros -> Hfree. unfold script.
    rewrite (script_over_directory _ _ _ _ Hdir). outcome.
    apply (loop_succeeds tables _ _ _ Hdir). right. split; [done |].
    rewrite Hfill, (map_size_insert_None _ _ _ Hnone). lia.
Qed.

Lemma one_missing_placeholder_witness :
  result_of (script w_one_missing) = Ok tt /\
  backup (world_of (script w_one_missing)) =
    Directory true
      (<[file_path "chat_rooms" := RegularFile "[]"]>
         (delete (file_path "chat_rooms") d_exported)).
Proof.
  assert (Hin : "chat_rooms" ∈ tables) by (apply (bool_decide_unpack _); exact I).
  assert (Hnone : delete (file_path "chat_rooms") d_exported
                    !! file_path "chat_rooms" = None) by apply lookup_delete_eq.
  assert (Hothers : forall t, t ∈ tables -> t <> "chat_rooms" ->
            is_Some (delete (file_path "chat_rooms") d_exported !! file_path t)).
  { apply (Forall_forall
             (fun t => t <> "chat_rooms" ->
                is_Some (delete (file_path "chat_rooms") d_exported !! file_path t))).
    apply (bool_decide_unpack _). vm_compute. exact I. }
  destruct (one_missing_placeholder w_one_missing true _ "chat_rooms"
              eq_refl Hin Hnone Hothers) as [Hdone Hruns].
  assert (Hr : result_of (script w_one_missing) = Ok tt).
  { apply Hruns; [reflexivity | simpl; lia]. }
  split; [exact Hr |].
  apply (Hdone (trace_of (script w_one_missing))).
  rewrite <- Hr. apply outcome_eta.
Defined.

(** C5, as stated, fails: on a full device the write into the first
    placeholder raises, the run aborts there, and the file the script had
    just opened is left in the directory, empty. *)
Lemma failed_write_leaves_empty_file :
  result_of (script w_full_disk) = Raise NoSpaceError /\
  last (trace_of (script w_full_disk)) = Some (EvWrite "products.json" "[]") /\
  entries w_full_disk !! "products.json" = None /\
  entries (world_of (script w_full_disk)) !! "products.json" = Some (RegularFile "").
Proof. vm_compute. repeat split; reflexivity. Qed.

(** C5, amended.  A run that raises stops at the call that failed: that call
    is the last of the trace.  When it is [mkdir], nothing has changed.
    Otherwise it concerns one table [t], whose placeholder was missing:
    - for the tables before [t] in the list the run did its work (entries
      that existed are as they were, missing placeholders were created with
      the text of the empty array), and every other name is as before the
      run, so that no table after [t] was handled;
    - when [open] failed, there is no entry [t.json];
    - when the write failed, [t.json] exists and is empty. *)
Theorem abort_leaves_partial_state (w : world) (e : os_error) :
  result_of (script w) = Raise e ->
  script w = ([EvMkdir], Raise e, w) \/
  exists pre t post,
    tables = pre ++ t :: post /\
    (entries w ∪ placeholders_of pre) !! file_path t = None /\
    (forall n, n <> file_path t ->
       entries (world_of (script w)) !! n = (entries w ∪ placeholders_of pre) !! n) /\
    ((e = PermissionError /\
      last (trace_of (script w)) = Some (EvOpenW (file_path t)) /\
      entries (world_of (script w)) !! file_path t = None) \/
     (e = NoSpaceError /\
      last (trace_of (script w)) = Some (EvWrite (file_path t) "[]") /\
      entries (world_of (script w)) !! file_path t = Some (RegularFile ""))).
Proof.
  unfold script. destruct (mkdir_ok w) eqn:Hmk.
  - rewrite (script_over_accepted _ _ Hmk). outcome. intros Hr. right.
    destruct (prepared_directory w Hmk) as [wr Hdir].
    destruct (loop_raise tables _ _ _ _ Hdir Hr)
      as (pre & t & post & w1 & Htab & Hpre & Hw1 & Hnone & Hcase).
    destruct (loop_ok pre _ _ _ Hdir Hpre) as [Hb1 _]. rewrite Hw1 in Hb1.
    exists pre, t, post. split; [exact Htab |]. split; [exact Hnone |].
    rewrite Hr. unfold closing. rewrite app_nil_r.
    destruct Hcase as [(-> & _ & Hw' & Hl)|(-> & _ & Hw' & Hl)]; rewrite Hw'.
    + split; [intros n _; unfold entries at 1; by rewrite Hb1 |].
      left. split; [done |]. split; [by do 2 apply last_cons_Some |].
      unfold entries at 1. by rewrite Hb1.
    + split.
      { intros n Hn. unfold entries at 1. simpl.
        by rewrite lookup_insert_ne. }
      right. split; [done |]. split; [by do 2 apply last_cons_Some |].
      unfold entries at 1. simpl. by rewrite lookup_insert_eq.
  - destruct (script_over_refused tables w Hmk) as [e' He'].
    rewrite He'. outcome. intros [= ->]. by left.
Qed.

Lemma abort_leaves_partial_state_witness :
  result_of (script w_read_only_empty) = Raise PermissionError /\
  (script w_read_only_empty = ([EvMkdir], Raise PermissionError, w_read_only_empty) \/
   exists pre t post,
     tables = pre ++ t :: post /\
     (entries w_read_only_empty ∪ placeholders_of pre) !! file_path t = None /\
     (forall n, n <> file_path t ->
        entries (world_of (script w_read_only_empty)) !! n =
          (entries w_read_only_empty ∪ placeholders_of pre) !! n) /\
     ((PermissionError = PermissionError /\
       last (trace_of (script w_read_only_empty)) = Some (EvOpenW (file_path t)) /\
       entries (world_of (script w_read_only_empty)) !! file_path t = None) \/
      (PermissionError = NoSpaceError /\
       last (trace_of (script w_read_only_empty)) =
         Some (EvWrite (file_path t) "[]") /\
       entries (world_of (script w_read_only_empty)) !! file_path t =
         Some (RegularFile "")))).
Proof.
  assert (Hr : result_of (script w_read_only_empty) = Raise PermissionError)
    by (vm_compute; reflexivity).
  split; [exact Hr |].
  exact (abort_leaves_partial_state w_read_only_empty PermissionError Hr).
Defined.

(** C6, as stated, fails: on a read-only directory that already holds the
    22 placeholders the run opens no file and completes without error. *)
Lemma read_only_directory_may_complete :
  backup w_read_only_exported = Directory false d_exported /\
  result_of (script w_read_only_exported) = Ok tt.
Proof. split; [reflexivity | vm_compute; reflexivity]. Qed.

(** C6, amended.  On a backup directory that refuses new entries the run
    leaves the world as it found it and creates no placeholder.  It raises
    [PermissionError] when the placeholder of some table is missing, and
    completes without error when all of them exist. *)
Theorem read_only_directory (w : world) (d : gmap string node) :
  backup w = Directory false d ->
  world_of (script w) = w /\
  (forall t, t ∈ tables -> d !! file_path t = None ->
     result_of (script w) = Raise PermissionError) /\
  ((forall t, t ∈ tables -> is_Some (d !! file_path t)) ->
     result_of (script w) = Ok tt).
Proof.
  intros Hdir. unfold script.
  rewrite (script_over_directory _ _ _ _ Hdir). outcome.
  destruct (loop_denied tables w d Hdir) as (Hw & Hr & Hall & Hok).
  split; [exact Hw |]. split.
  - intros t Ht Hnone. destruct Hr as [Hr|Hr]; [| exact Hr].
    destruct (Hall Hr t Ht) as [e He]. congruence.
  - exact Hok.
Qed.

Lemma read_only_directory_witness :
  backup w_read_only_empty = Directory false ∅ /\
  world_of (script w_read_only_empty) = w_read_only_empty /\
  result_of (script w_read_only_empty) = Raise PermissionError.
Proof.
  destruct (read_only_directory w_read_only_empty ∅ eq_refl) as (Hw & Hraise & _).
  split; [reflexivity |]. split; [exact Hw |].
  apply (Hraise "products"); [apply (bool_decide_unpack _); exact I |].
  apply lookup_empty.
Defined.

(** C7, as stated, fails: with one free block on the device the declared
    order creates [products.json] and aborts at the second table, while the
    reverse order spends the block on [user_permissions.json] and never
    reaches [products.json]. *)
Lemma order_matters_when_aborting :
  tables ≡ₚ reverse tables /\
  entries (world_of (script_over tables w_one_block)) !! "products.json" =
    Some (RegularFile "[]") /\
  entries (world_of (script_over (reverse tables) w_one_block)) !! "products.json" =
    None.
Proof.
  split; [symmetry; apply reverse_Permutation |].
  vm_compute. split; reflexivity.
Qed.

(** C7, amended.  From every initial state from which the run in the
    declared order completes, the run over any permutation of the table
    list completes as well and ends in the same state. *)
Theorem order_immaterial_when_complete (w : world) (ts : list string)
    (tr : list event) (w' : world) :
  tables ≡ₚ ts ->
  script w = (tr, Ok tt, w') ->
  exists tr', script_over ts w = (tr', Ok tt, w').
Proof.
  intros Hperm Hrun. apply script_over_ok_inv in Hrun as (Hmk & Hr & <-).
  destruct (prepared_directory w Hmk) as [wr Hdir].
  destruct (loop_same_placeholders tables ts _ _ _ Hdir
              (placeholders_of_perm _ _ Hperm) Hr) as [Hr' Hw'].
  rewrite (script_over_accepted ts w Hmk), Hr', Hw'. eauto.
Qed.

Lemma order_immaterial_when_complete_witness :
  tables ≡ₚ reverse tables /\
  script w_fresh = (trace_of (script w_fresh), Ok tt, world_of (script w_fresh)) /\
  exists tr',
    script_over (reverse tables) w_fresh = (tr', Ok tt, world_of (script w_fresh)).
Proof.
  assert (Hperm : tables ≡ₚ reverse tables)
    by (symmetry; apply reverse_Permutation).
  assert (Hrun : script w_fresh =
            (trace_of (script w_fresh), Ok tt, world_of (script w_fresh))).
  { assert (Hr : result_of (script w_fresh) = Ok tt) by (vm_compute; reflexivity).
    rewrite <- Hr. apply outcome_eta. }
  split; [exact Hperm |]. split; [exact Hrun |].
  exact (order_immaterial_when_complete w_fresh (reverse tables) _ _ Hperm Hrun).
Defined.

(** C8.  On a backup directory that exists, [mkdir] succeeds and changes
    nothing, and after the run, however it ends, the directory is still
    there, with the same permission, and every name that is not
    [<table>.json] for a listed table leads to what it led to before: the
    same entry, or none. *)
Theorem existing_directory_reused (w : world) (wr : bool) (d : gmap string node) :
  backup w = Directory wr d ->
  mkdir w = ([EvMkdir], Ok tt, w) /\
  exists d',
    backup (world_of (script w)) = Directory wr d' /\
    (forall n, n ∉ file_path <$> tables -> d' !! n = d !! n).
Proof.
  intros Hdir. split.
  - unfold mkdir. by rewrite Hdir.
  - unfold script. rewrite (script_over_directory _ _ _ _ Hdir). outcome.
    destruct (loop_frame tables w _ _ Hdir) as (d' & Hb & _ & _ & _ & Hout).
    eauto.
Qed.

Lemma existing_directory_reused_witness :
  mkdir w_exported = ([EvMkdir], Ok tt, w_exported) /\
  exists d',
    backup (world_of (script w_exported)) = Directory true d' /\
    (forall n, n ∉ file_path <$> tables ->
       d' !! n = (<["README.md" := RegularFile "notes"]> d_exported) !! n).
Proof.
  exact (existing_directory_reused w_exported true _ eq_refl).
Defined.

(** C9.  The table list has 22 names, no name twice, and two tables never
    share a file name.  In the directory a run leaves, whatever the state
    it started from and however it ended, the listing has at most one
    entry named [<table>.json] for each listed table, and the run has
    opened that name for writing at most once. *)
Theorem one_placeholder_per_table :
  length tables = 22 /\
  NoDup tables /\
  NoDup (file_path <$> tables) /\
  (forall (w : world) (t : string),
     t ∈ tables ->
     length (filter (fun p => p.1 = file_path t)
               (map_to_list (entries (world_of (script w))))) <= 1 /\
     opens_of (file_path t) (trace_of (script w)) <= 1).
Proof.
  split; [exact tables_length |]. split; [exact tables_NoDup |].
  split; [exact file_paths_NoDup |].
  intros w t _. split; [apply one_entry_per_name, NoDup_fst_map_to_list |].
  apply script_over_opens_once.
Qed.

(** C10.  The script reads nothing but the filesystem: two runs started on
    the same filesystem, wherever the repository lies, end with the same
    result and leave the same filesystem. *)
Theorem final_state_determined_by_initial_state (w1 w2 : world) :
  same_filesystem w1 w2 ->
  result_of (script w1) = result_of (script w2) /\
  same_filesystem (world_of (script w1)) (world_of (script w2)).
Proof.
  intros Hsame. rewrite (same_filesystem_set_location w1 w2 Hsame).
  destruct (script_over_location tables w1 (location w2)) as [Hr Hw].
  unfold script. rewrite Hr, Hw. split; [done |].
  unfold same_filesystem. simpl. done.
Qed.

Lemma final_state_determined_by_initial_state_witness :
  same_filesystem w_fresh (set_location "/srv/app/backup" w_fresh) /\
  result_of (script w_fresh) =
    result_of (script (set_location "/srv/app/backup" w_fresh)) /\
  same_filesystem (world_of (script w_fresh))
    (world_of (script (set_location "/srv/app/backup" w_fresh))).
Proof.
  assert (Hsame : same_filesystem w_fresh (set_location "/srv/app/backup" w_fresh))
    by (repeat split).
  split; [exact Hsame |].
  exact (final_state_determined_by_initial_state _ _ Hsame).
Defined.

(** * Further properties of the script *)

(** X1.  A run that completes leaves, under every name, the entry that was
    there before; where there was none and the name is [<table>.json] for
    a listed table, a regular file holding the text of the empty array;
    and nothing under any other name.  So every listed table has an entry
    afterwards. *)
Theorem completed_run_fills_directory (w : world) (tr : list event) (w' : world) :
  script w = (tr, Ok tt, w') ->
  (forall n,
     entries w' !! n =
       match entries w !! n with
       | Some e => Some e
       | None =>
           if decide (n ∈ file_path <$> tables)
           then Some (RegularFile "[]") else None
       end) /\
  (forall t, t ∈ tables -> is_Some (entries w' !! file_path t)).
Proof.
  intros Hrun. apply script_over_ok_inv in Hrun as (Hmk & Hr & <-).
  destruct (prepared_directory w Hmk) as [wr Hdir].
  destruct (loop_ok tables _ _ _ Hdir Hr) as [Hb _].
  assert (Hall : forall n,
    entries (world_of (loop tables (prepared w))) !! n =
      match entries w !! n with
      | Some e => Some e
      | None =>
          if decide (n ∈ file_path <$> tables)
          then Some (RegularFile "[]") else None
      end).
  { intros n. unfold entries at 1. rewrite Hb, lookup_union, lookup_placeholders_of.
    destruct (entries w !! n), (decide (n ∈ file_path <$> tables)); done. }
  split; [exact Hall |].
  intros t Ht. rewrite Hall.
  destruct (entries w !! file_path t); [by eauto |].
  rewrite decide_True by (by apply list_elem_of_fmap_2). by eauto.
Qed.

Lemma completed_run_fills_directory_witness :
  script w_one_missing =
    (trace_of (script w_one_missing), Ok tt, world_of (script w_one_missing)) /\
  (forall n,
     entries (world_of (script w_one_missing)) !! n =
       match entries w_one_missing !! n with
       | Some e => Some e
       | None =>
           if decide (n ∈ file_path <$> tables)
           then Some (RegularFile "[]") else None
       end) /\
  (forall t, t ∈ tables ->
     is_Some (entries (world_of (script w_one_missing)) !! file_path t)).
Proof.
  assert (Hrun : script w_one_missing =
            (trace_of (script w_one_missing), Ok tt, world_of (script w_one_missing))).
  { assert (Hr : result_of (script w_one_missing) = Ok tt)
      by (vm_compute; reflexivity).
    rewrite <- Hr. apply outcome_eta. }
  split; [exact Hrun |].
  exact (completed_run_fills_directory w_one_missing _ _ Hrun).
Defined.

(** X2.  The run completes exactly when [mkdir] goes through and either no
    listed table lacks its entry, or the process has write access and the
    device has a free block for each table that lacks one. *)
Theorem run_completes_iff (w : world) :
  result_of (script w) = Ok tt <->
  mkdir_ok w = true /\
  (missing_tables w = [] \/
   (write_access w = true /\ length (missing_tables w) <= free_blocks w)).
Proof.
  unfold script, missing_tables. destruct (mkdir_ok w) eqn:Hmk.
  - rewrite (script_over_accepted _ _ Hmk). outcome.
    destruct (prepared_access w Hmk) as [Hdir Hfree].
    rewrite (loop_succeeds_missing tables file_paths_NoDup _ _ _ Hdir), Hfree.
    tauto.
  - destruct (script_over_refused tables w Hmk) as [e He]. rewrite He. outcome.
    split; [discriminate | by intros [? _]].
Qed.

(** X3.  The calls of a run that completes, in order: [mkdir], the banner
    with the path of the directory, then for each table in the order of
    the list the existence test, followed, where the table had no entry
    when the run started, by the open, the write of the two brackets and
    the notice of that table; then the summary. *)
Theorem completed_run_trace (w : world) (tr : list event) (w' : world) :
  script w = (tr, Ok tt, w') ->
  tr = EvMkdir :: EvPrint (banner (location w)) ::
         concat (visit (entries w) <$> tables) ++ [EvPrint summary].
Proof.
  intros Hrun.
  destruct (script_over_ok_inv _ _ _ _ Hrun) as (Hmk & Hr & _).
  pose proof (f_equal trace_of Hrun) as Htr. unfold script in Htr.
  rewrite (script_over_accepted _ _ Hmk), !trace_of_outcome in Htr.
  rewrite <- Htr.
  destruct (prepared_directory w Hmk) as [wr Hdir].
  rewrite (loop_trace_ok tables file_paths_NoDup _ _ _ Hdir Hr), Hr.
  reflexivity.
Qed.

Lemma completed_run_trace_witness :
  script w_one_missing =
    (trace_of (script w_one_missing), Ok tt, world_of (script w_one_missing)) /\
  trace_of (script w_one_missing) =
    EvMkdir :: EvPrint (banner (location w_one_missing)) ::
      concat (visit (entries w_one_missing) <$> tables) ++ [EvPrint summary].
Proof.
  assert (Hrun : script w_one_missing =
            (trace_of (script w_one_missing), Ok tt, world_of (script w_one_missing))).
  { assert (Hr : result_of (script w_one_missing) = Ok tt)
      by (vm_compute; reflexivity).
    rewrite <- Hr. apply outcome_eta. }
  split; [exact Hrun |].
  exact (completed_run_trace w_one_missing _ _ Hrun).
Defined.

(** X4.  The summary is printed exactly by the runs that complete, and a
    run that printed it has left an entry for every listed table. *)
Theorem summary_means_completed (w : world) :
  (EvPrint summary ∈ trace_of (script w) <-> result_of (script w) = Ok tt) /\
  (EvPrint summary ∈ trace_of (script w) ->
   forall t, t ∈ tables -> is_Some (entries (world_of (script w)) !! file_path t)).
Proof.
  assert (Hiff : EvPrint summary ∈ trace_of (script w) <->
                 result_of (script w) = Ok tt).
  { unfold script. destruct (mkdir_ok w) eqn:Hmk.
    - rewrite (script_over_accepted _ _ Hmk). outcome.
      destruct (prepared_directory w Hmk) as [wr Hdir]. split.
      + intros Hin.
        apply elem_of_cons in Hin as [Hin|Hin]; [discriminate |].
        apply elem_of_cons in Hin as [Hin|Hin].
        { exfalso. apply (banner_not_summary (location w)). congruence. }
        apply elem_of_app in Hin as [Hin|Hin].
        * destruct (loop_prints tables _ _ _ _ Hdir Hin) as (t & _ & Ht).
          symmetry in Ht. by apply notice_not_summary in Ht.
        * destruct (result_of (loop tables (prepared w))) as [[]|e]; [done |].
          by apply not_elem_of_nil in Hin.
      + intros ->. do 2 apply list_elem_of_further.
        apply elem_of_app. right. apply list_elem_of_here.
    - destruct (script_over_refused tables w Hmk) as [e He]. rewrite He. outcome.
      split; [| discriminate]. intros Hin.
      apply list_elem_of_singleton in Hin. discriminate. }
  split; [exact Hiff |].
  intros Hin t Ht. apply Hiff in Hin.
  destruct (script_over_ok_inv tables w (trace_of (script w)) (world_of (script w)))
    as (Hmk & Hr & Hw).
  { rewrite <- Hin. apply (outcome_eta (script w)). }
  destruct (prepared_directory w Hmk) as [wr Hdir].
  destruct (loop_ok tables _ _ _ Hdir Hr) as [Hb _].
  unfold script in *. unfold entries. rewrite <- Hw, Hb.
  rewrite lookup_union, lookup_placeholders_of.
  rewrite decide_True by (by apply list_elem_of_fmap_2).
  destruct (entries w !! file_path t); eauto.
Qed.

(** X5.  A run raises one of three errors and no other: [FileExistsError]
    when the path of the backup directory leads to something that is not a
    directory, [PermissionError] when the process lacks write access, and
    the error of a full device otherwise.  In particular an entry of
    another kind under the name of a placeholder never makes [open]
    fail, since the existence test comes first. *)
Theorem errors_of_a_run (w : world) (e : os_error) :
  result_of (script w) = Raise e ->
  (e = FileExistsError /\ backup w = NotADirectory) \/
  (e = PermissionError /\ write_access w = false) \/
  (e = NoSpaceError /\ write_access w = true).
Proof.
  unfold script. destruct (mkdir_ok w) eqn:Hmk.
  - rewrite (script_over_accepted _ _ Hmk). outcome. intros Hr.
    destruct (prepared_access w Hmk) as [Hdir _].
    destruct (loop_raise tables _ _ _ _ Hdir Hr)
      as (pre & t & post & w1 & _ & _ & _ & _ & Hcase).
    destruct Hcase as [(-> & Hwa & _)|(-> & Hwa & _)]; tauto.
  - unfold script_over, bind, mkdir. revert Hmk. unfold mkdir_ok, write_access.
    destruct (backup w); try done.
    + intros ->. outcome. intros [= <-]. tauto.
    + intros _. outcome. intros [= <-]. tauto.
Qed.

Lemma errors_of_a_run_witness :
  result_of (script w_full_disk) = Raise NoSpaceError /\
  ((NoSpaceError = FileExistsError /\ backup w_full_disk = NotADirectory) \/
   (NoSpaceError = PermissionError /\ write_access w_full_disk = false) \/
   (NoSpaceError = NoSpaceError /\ write_access w_full_disk = true)).
Proof.
  assert (Hr : result_of (script w_full_disk) = Raise NoSpaceError)
    by (vm_compute; reflexivity).
  split; [exact Hr |].
  exact (errors_of_a_run w_full_disk NoSpaceError Hr).
Defined.

(** X6.  A run that raised for lack of space has left, for one listed table
    that had no entry, a file without text; and every later run, from any
    world with the directory in that state, whatever space it finds, leaves
    that file without text. *)
Theorem failed_write_is_never_repaired (w : world) :
  result_of (script w) = Raise NoSpaceError ->
  exists t,
    t ∈ tables /\
    entries w !! file_path t = None /\
    entries (world_of (script w)) !! file_path t = Some (RegularFile "") /\
    (forall w2, entries w2 = entries (world_of (script w)) ->
       entries (world_of (script w2)) !! file_path t = Some (RegularFile "")).
Proof.
  unfold script. destruct (mkdir_ok w) eqn:Hmk.
  - rewrite (script_over_accepted _ _ Hmk). outcome. intros Hr.
    destruct (prepared_directory w Hmk) as [wr Hdir].
    destruct (loop_raise tables _ _ _ _ Hdir Hr)
      as (pre & t & post & w1 & Htab & _ & _ & Hnone & Hcase).
    destruct Hcase as [(? & _)|(_ & _ & Hw' & _)]; [discriminate |].
    assert (Hempty : entries (world_of (loop tables (prepared w))) !! file_path t =
                     Some (RegularFile "")).
    { rewrite Hw'. unfold entries. simpl. apply lookup_insert_eq. }
    exists t. split; [rewrite Htab; apply elem_of_app; right; apply list_elem_of_here |].
    split; [by apply lookup_union_None in Hnone as [? _] |].
    split; [exact Hempty |].
    intros w2 Hw2. apply script_over_keeps_entries. by rewrite Hw2.
  - destruct (mkdir_refused w Hmk) as [e He].
    unfold script_over. rewrite (bind_raise mkdir _ _ _ _ _ He). outcome.
    intros [= ->]. by apply mkdir_never_lacks_space in He.
Qed.

Lemma failed_write_is_never_repaired_witness :
  result_of (script w_full_disk) = Raise NoSpaceError /\
  exists t,
    t ∈ tables /\
    entries w_full_disk !! file_path t = None /\
    entries (world_of (script w_full_disk)) !! file_path t = Some (RegularFile "") /\
    (forall w2, entries w2 = entries (world_of (script w_full_disk)) ->
       entries (world_of (script w2)) !! file_path t = Some (RegularFile "")).
Proof.
  assert (Hr : result_of (script w_full_disk) = Raise NoSpaceError)
    by (vm_compute; reflexivity).
  split; [exact Hr |].
  exact (failed_write_is_never_repaired w_full_disk Hr).
Defined.

(** X7.  Whatever a run leaves under a name was there before the run, or
    is new under the name [<table>.json] of a listed table: a regular file
    holding the text of the empty array, or holding no text when the run
    raised for lack of space.  The script writes no other text and makes no
    entry under any other name. *)
Theorem new_entries_are_placeholders (w : world) (n : string) (e : node) :
  entries (world_of (script w)) !! n = Some e ->
  entries w !! n = Some e \/
  (entries w !! n = None /\ n ∈ file_path <$> tables /\
   (e = RegularFile "[]" \/
    (e = RegularFile "" /\ result_of (script w) = Raise NoSpaceError))).
Proof.
  unfold script. destruct (mkdir_ok w) eqn:Hmk.
  - rewrite (script_over_accepted _ _ Hmk). outcome.
    destruct (prepared_directory w Hmk) as [wr Hdir].
    apply (loop_new_entries tables _ _ _ n e Hdir).
  - destruct (script_over_refused tables w Hmk) as [e' He]. rewrite He. outcome.
    by left.
Qed.

Lemma new_entries_are_placeholders_witness :
  entries (world_of (script w_fresh)) !! "products.json" = Some (RegularFile "[]") /\
  (entries w_fresh !! "products.json" = Some (RegularFile "[]") \/
   (entries w_fresh !! "products.json" = None /\
    "products.json" ∈ file_path <$> tables /\
    (RegularFile "[]" = RegularFile "[]" \/
     (RegularFile "[]" = RegularFile "" /\
      result_of (script w_fresh) = Raise NoSpaceError)))).
Proof.
  assert (He : entries (world_of (script w_fresh)) !! "products.json" =
               Some (RegularFile "[]")) by (vm_compute; reflexivity).
  split; [exact He |].
  exact (new_entries_are_placeholders w_fresh "products.json" _ He).
Defined.

(** X8.  The progress output is faithful: in every run, complete or not,
    the notice of a table is printed exactly when the table is listed, had
    no entry before the run, and has a regular file holding the text of
    the empty array after it. *)
Theorem notice_iff_created (w : world) (t : string) :
  EvPrint (notice t) ∈ trace_of (script w) <->
  t ∈ tables /\
  entries w !! file_path t = None /\
  entries (world_of (script w)) !! file_path t = Some (RegularFile "[]").
Proof.
  unfold script. destruct (mkdir_ok w) eqn:Hmk.
  - rewrite (script_over_accepted _ _ Hmk). outcome.
    destruct (prepared_directory w Hmk) as [wr Hdir].
    rewrite <- (loop_notice_iff tables file_paths_NoDup _ _ _ t Hdir).
    split.
    + intros Hin.
      apply elem_of_cons in Hin as [Hin|Hin]; [discriminate |].
      apply elem_of_cons in Hin as [Hin|Hin].
      { exfalso. apply (notice_not_banner t (location w)). congruence. }
      apply elem_of_app in Hin as [Hin|Hin]; [done |].
      destruct (result_of (loop tables (prepared w))); simpl in Hin.
      * apply list_elem_of_singleton in Hin.
        exfalso. apply (notice_not_summary t). congruence.
      * by apply not_elem_of_nil in Hin.
    + intros Hin. do 2 apply list_elem_of_further.
      apply elem_of_app. by left.
  - destruct (script_over_refused tables w Hmk) as [e He]. rewrite He. outcome.
    split.
    + intros Hin. apply list_elem_of_singleton in Hin. discriminate.
    + intros (_ & Hnone & Hnew). congruence.
Qed.
